(** * Verification of houingData.py: the price BST of RealEstateAnalyzer,
    its range search and the per-location / per-year aggregations.

    Prices ([latestPrice], a Python float in the source) are modelled as
    exact rationals [Q]; the sale year ([latest_saleyear.year]) as [Z]. *)

From Stdlib Require Import QArith Qfield Lqa List String ZArith Bool
  Permutation Sorted Lia.
From Stdlib Require PrimFloat Uint63 SpecFloat FloatOps.
Import ListNotations.
Open Scope Q_scope.

(** ** Data model *)

(** [class Property] *)
Record Property := mkProperty {
  id : string;
  latestPrice : Q;
  numOfBedrooms : Z;
  city : string;
  latest_saleyear : Z
}.

(** [class BSTNode]: a node owns its property and at most two children;
    [None] children are [Leaf]. *)
Inductive BSTNode :=
| Leaf : BSTNode
| Node : Property -> BSTNode -> BSTNode -> BSTNode.

(** [class RealEstateAnalyzer]: the two attributes set in [__init__]. *)
Record RealEstateAnalyzer := mkAnalyzer {
  properties : list Property;
  price_bst_root : BSTNode
}.

(** ** Comparisons on prices, as Python evaluates them on numbers *)

Definition Qltb (x y : Q) : bool :=
  Z.ltb (Qnum x * QDen y) (Qnum y * QDen x).

Definition Qleb (x y : Q) : bool := Qle_bool x y.

(** ** Operations *)

(** [RealEstateAnalyzer.__init__] *)
Definition init : RealEstateAnalyzer := mkAnalyzer [] Leaf.

(** [load_data] without the CSV reading: the parsed rows are appended to
    [self.properties] in file order. *)
Definition load_data (s : RealEstateAnalyzer) (rows : list Property)
  : RealEstateAnalyzer :=
  mkAnalyzer (properties s ++ rows) (price_bst_root s).

(** [insert_bst] *)
Fixpoint insert_bst (node : BSTNode) (property : Property) : BSTNode :=
  match node with
  | Leaf => Node property Leaf Leaf
  | Node p l r =>
      if Qltb (latestPrice property) (latestPrice p)
      then Node p (insert_bst l property) r
      else Node p l (insert_bst r property)
  end.

(** The loop of [build_price_bst], starting from a given root. *)
Definition insert_all (root : BSTNode) (ps : list Property) : BSTNode :=
  fold_left insert_bst ps root.

(** [build_price_bst]: reset the root, then insert every property. *)
Definition build_price_bst (s : RealEstateAnalyzer) : RealEstateAnalyzer :=
  mkAnalyzer (properties s) (insert_all Leaf (properties s)).

(** *** A small state monad for the mutation of the [results] list *)

(** The state in scope during [search_by_price_range]: [self] and the
    [results] list the caller passed in. *)
Record SearchState := mkSearchState {
  self : RealEstateAnalyzer;
  results : list Property
}.

Definition M (S A : Type) := S -> A * S.

Definition ret {S A} (a : A) : M S A := fun s => (a, s).
Definition bind {S A B} (m : M S A) (k : A -> M S B) : M S B :=
  fun s => let '(a, s') := m s in k a s'.
Definition get {S} : M S S := fun s => (s, s).

Notation "x <- m ;; k" := (bind m (fun x => k))
  (at level 61, m at next level, right associativity).
Notation "m ;;; k" := (bind m (fun _ => k))
  (at level 61, right associativity).

(** [results.append(x)] *)
Definition append_result (x : Property) : M SearchState unit :=
  fun s => (tt, mkSearchState (self s) (results s ++ [x])).

(** [search_by_price_range] *)
Fixpoint search_by_price_range (root : BSTNode) (min_price max_price : Q)
  : M SearchState unit :=
  match root with
  | Leaf => ret tt
  | Node p l r =>
      (if Qleb min_price (latestPrice p) && Qleb (latestPrice p) max_price
       then append_result p else ret tt) ;;;
      (if Qltb min_price (latestPrice p)
       then search_by_price_range l min_price max_price else ret tt) ;;;
      (if Qltb (latestPrice p) max_price
       then search_by_price_range r min_price max_price else ret tt)
  end.

(** [find_properties_in_price_range], as a method reading [self]: a fresh
    [results] list is filled by the search and returned. *)
Definition find_properties_in_price_range_st (min_price max_price : Q)
  : M RealEstateAnalyzer (list Property) :=
  fun s =>
    let '(_, w) :=
      search_by_price_range (price_bst_root s) min_price max_price
        (mkSearchState s []) in
    (results w, self w).

Definition find_properties_in_price_range (s : RealEstateAnalyzer)
  (min_price max_price : Q) : list Property :=
  fst (find_properties_in_price_range_st min_price max_price s).

(** *** Grouping: [defaultdict(list)] as an association list kept in
    insertion order (the iteration order of a Python dict). *)

(** [d[k].append(v)] on a [defaultdict(list)] *)
Fixpoint group_append {K V} (eqb : K -> K -> bool) (k : K) (v : V)
  (d : list (K * list V)) : list (K * list V) :=
  match d with
  | [] => [(k, [v])]
  | (k', vs) :: d' =>
      if eqb k k' then (k', vs ++ [v]) :: d'
      else (k', vs) :: group_append eqb k v d'
  end.

(** Python's [sum] over a list of numbers: left to right from 0. *)
Definition py_sum (xs : list Q) : Q := fold_left Qplus xs 0.

(** [sum(prices) / len(prices)], in exact rational arithmetic; [mean_f]
    below is the same computation at Python float precision. *)
Definition mean (prices : list Q) : Q :=
  py_sum prices / inject_Z (Z.of_nat (List.length prices)).

(** The first loop of [calculate_average_price_by_location]. *)
Definition location_prices (ps : list Property) : list (string * list Q) :=
  fold_left (fun d p => group_append String.eqb (city p) (latestPrice p) d)
    ps [].

(** [calculate_average_price_by_location] *)
Definition calculate_average_price_by_location_st
  : M RealEstateAnalyzer (list (string * Q)) :=
  s <- get ;;
  ret (map (fun '(loc, prices) => (loc, mean prices))
           (location_prices (properties s))).

(** *** The averages at Python float precision

    In the source a price is [float(row['latestPrice'])], a binary64 value,
    and [sum(prices) / len(prices)] runs in binary64 arithmetic. *)

(** A Python [int] as a float: exact for magnitudes below 2^53. *)
Definition float_of_Z (z : Z) : PrimFloat.float :=
  if Z.leb 0 z then PrimFloat.of_uint63 (Uint63.of_Z z)
  else PrimFloat.opp (PrimFloat.of_uint63 (Uint63.of_Z (- z))).

(** [float(s)] for the decimal string [s] whose value is [x]: with numerator
    and denominator below 2^53 both are exact floats, and their correctly
    rounded quotient is the float nearest to [x], which [float] returns. *)
Definition price_float (x : Q) : PrimFloat.float :=
  PrimFloat.div (float_of_Z (Qnum x)) (float_of_Z (Zpos (Qden x))).

(** Python's [sum] over floats: left to right from 0 (CPython before 3.12;
    later versions compensate the rounding errors of the additions, and all
    agree when every partial sum is an integer below 2^53). *)
Definition py_sum_f (xs : list PrimFloat.float) : PrimFloat.float :=
  fold_left PrimFloat.add xs (float_of_Z 0).

(** [sum(prices) / len(prices)] on floats: the [int] length is converted to
    a float, then one binary64 division. *)
Definition mean_f (prices : list PrimFloat.float) : PrimFloat.float :=
  PrimFloat.div (py_sum_f prices) (float_of_Z (Z.of_nat (List.length prices))).

(** [calculate_average_price_by_location] at float precision: the grouping
    is [location_prices], each group's prices are the floats of the
    listings. *)
Definition calculate_average_price_by_location_f (s : RealEstateAnalyzer)
  : list (string * PrimFloat.float) :=
  map (fun '(loc, prices) => (loc, mean_f (map price_float prices)))
      (location_prices (properties s)).

(** The exact value of a finite float ([None] for infinities and NaN). *)
Definition float_value (f : PrimFloat.float) : option Q :=
  match FloatOps.Prim2SF f with
  | SpecFloat.S754_zero _ => Some 0
  | SpecFloat.S754_finite sgn m e =>
      let v := match e with
               | Zneg p => Zpos m # Pos.pow 2 p
               | _ => inject_Z (Zpos m * 2 ^ e)%Z
               end in
      Some (if sgn then - v else v)
  | _ => None
  end.

(** [d[year][city].append(v)] on [defaultdict(lambda: defaultdict(list))] *)
Fixpoint group_append2 (year : Z) (loc : string) (v : Q)
  (d : list (Z * list (string * list Q))) : list (Z * list (string * list Q)) :=
  match d with
  | [] => [(year, group_append String.eqb loc v [])]
  | (y, locs) :: d' =>
      if Z.eqb year y then (y, group_append String.eqb loc v locs) :: d'
      else (y, locs) :: group_append2 year loc v d'
  end.

Definition yearly_location_prices (ps : list Property)
  : list (Z * list (string * list Q)) :=
  fold_left (fun d p => group_append2 (latest_saleyear p) (city p)
                          (latestPrice p) d) ps [].

(** [find_trends] *)
Definition find_trends_st
  : M RealEstateAnalyzer (list (Z * list (string * Q))) :=
  s <- get ;;
  ret (map (fun '(year, locations) =>
              (year, map (fun '(loc, prices) => (loc, mean prices)) locations))
           (yearly_location_prices (properties s))).

Definition calculate_average_price_by_location (s : RealEstateAnalyzer)
  : list (string * Q) := fst (calculate_average_price_by_location_st s).

Definition find_trends (s : RealEstateAnalyzer)
  : list (Z * list (string * Q)) := fst (find_trends_st s).

(** ** Specification-side vocabulary *)

(** The range test of the search: [min_price <= price <= max_price]. *)
Definition in_range (min_price max_price : Q) (p : Property) : bool :=
  Qleb min_price (latestPrice p) && Qleb (latestPrice p) max_price.

(** The listings the search appends, as a pure function of the tree. *)
Fixpoint range_list (t : BSTNode) (min_price max_price : Q) : list Property :=
  match t with
  | Leaf => []
  | Node p l r =>
      (if in_range min_price max_price p then [p] else []) ++
      (if Qltb min_price (latestPrice p)
       then range_list l min_price max_price else []) ++
      (if Qltb (latestPrice p) max_price
       then range_list r min_price max_price else [])
  end.

(** Pre-order traversal: node, left subtree, right subtree. *)
Fixpoint preorder (t : BSTNode) : list Property :=
  match t with
  | Leaf => []
  | Node p l r => p :: preorder l ++ preorder r
  end.

(** The BST order property of every node. *)
Fixpoint bst (t : BSTNode) : Prop :=
  match t with
  | Leaf => True
  | Node p l r =>
      Forall (fun q => latestPrice q < latestPrice p) (preorder l) /\
      Forall (fun q => latestPrice p <= latestPrice q) (preorder r) /\
      bst l /\ bst r
  end.

(** All prices of a collection are pairwise (numerically) distinct. *)
Definition distinct_prices (ps : list Property) : Prop :=
  ForallOrdPairs (fun x y => ~ latestPrice x == latestPrice y) ps.

(** Order-preserving subsequence. *)
Inductive subseq {A} : list A -> list A -> Prop :=
| subseq_nil : subseq [] []
| subseq_skip : forall x l l', subseq l l' -> subseq l (x :: l')
| subseq_take : forall x l l', subseq l l' -> subseq (x :: l) (x :: l').

(** ** Basic facts on the comparisons *)

Lemma Qltb_true (x y : Q) : Qltb x y = true <-> x < y.
Proof. unfold Qltb, Qlt. apply Z.ltb_lt. Qed.

Lemma Qltb_false (x y : Q) : Qltb x y = false <-> y <= x.
Proof.
  unfold Qltb, Qle. rewrite Z.ltb_ge. tauto.
Qed.

Lemma Qleb_true (x y : Q) : Qleb x y = true <-> x <= y.
Proof. apply Qle_bool_iff. Qed.

Lemma Qleb_false (x y : Q) : Qleb x y = false <-> y < x.
Proof.
  split; intro H.
  - apply Qnot_le_lt. intro H'. apply Qleb_true in H'. congruence.
  - destruct (Qleb x y) eqn:E; auto. apply Qleb_true in E. lra.
Qed.

Lemma in_range_true a b p :
  in_range a b p = true <-> a <= latestPrice p /\ latestPrice p <= b.
Proof.
  unfold in_range. rewrite andb_true_iff, !Qleb_true. tauto.
Qed.

Lemma in_range_false a b p :
  in_range a b p = false <-> latestPrice p < a \/ b < latestPrice p.
Proof.
  unfold in_range. rewrite andb_false_iff, !Qleb_false. tauto.
Qed.

(** ** The monadic search appends exactly [range_list] *)

Lemma search_by_price_range_spec (t : BSTNode) (a b : Q) (w : SearchState) :
  search_by_price_range t a b w =
  (tt, mkSearchState (self w) (results w ++ range_list t a b)).
Proof.
  revert w. induction t as [|p l IHl r IHr]; intro w; simpl.
  - unfold ret. rewrite app_nil_r. now destruct w.
  - unfold bind, in_range.
    destruct (Qleb a (latestPrice p) && Qleb (latestPrice p) b);
    destruct (Qltb a (latestPrice p)); destruct (Qltb (latestPrice p) b);
    unfold append_result, ret; simpl;
    rewrite ?IHl, ?IHr; simpl; rewrite ?app_nil_r, <- ?app_assoc;
    try reflexivity; destruct w; reflexivity.
Qed.

Lemma find_properties_range_list (s : RealEstateAnalyzer) (a b : Q) :
  find_properties_in_price_range s a b = range_list (price_bst_root s) a b.
Proof.
  unfold find_properties_in_price_range, find_properties_in_price_range_st.
  rewrite search_by_price_range_spec. reflexivity.
Qed.

Lemma find_properties_state (s : RealEstateAnalyzer) (a b : Q) :
  snd (find_properties_in_price_range_st a b s) = s.
Proof.
  unfold find_properties_in_price_range_st.
  rewrite search_by_price_range_spec. reflexivity.
Qed.

(** ** Concrete inputs *)

Definition prop1 : Property := mkProperty "1" 100 3 "A" 2020.
Definition prop2 : Property := mkProperty "2" 300 3 "B" 2020.
Definition prop3 : Property := mkProperty "3" 200 3 "A" 2021.

(** The analyzer after loading the three listings and building the index. *)
Definition scenario : RealEstateAnalyzer :=
  build_price_bst (load_data init [prop1; prop2; prop3]).

(** Normalise the means of a result, to compare them with literals. *)
Definition normalize_avg (d : list (string * Q)) : list (string * Q) :=
  map (fun '(k, v) => (k, Qred v)) d.

Definition normalize_trends (d : list (Z * list (string * Q)))
  : list (Z * list (string * Q)) :=
  map (fun '(y, locs) => (y, normalize_avg locs)) d.

(** ** The tree holds exactly the inserted listings *)

Lemma preorder_insert (t : BSTNode) (p : Property) :
  Permutation (preorder (insert_bst t p)) (p :: preorder t).
Proof.
  induction t as [|q l IHl r IHr]; simpl; [reflexivity|].
  destruct (Qltb (latestPrice p) (latestPrice q)); simpl.
  - rewrite IHl. simpl. apply perm_swap.
  - rewrite perm_swap. apply perm_skip.
    rewrite IHr. symmetry. apply Permutation_middle.
Qed.

Lemma preorder_insert_all (t : BSTNode) (ps : list Property) :
  Permutation (preorder (insert_all t ps)) (ps ++ preorder t).
Proof.
  unfold insert_all. revert t.
  induction ps as [|p ps IH]; intro t; simpl; [reflexivity|].
  rewrite IH, preorder_insert. symmetry. apply Permutation_middle.
Qed.

Lemma preorder_build (s : RealEstateAnalyzer) :
  Permutation (preorder (price_bst_root (build_price_bst s))) (properties s).
Proof.
  simpl. rewrite preorder_insert_all. simpl. now rewrite app_nil_r.
Qed.

(** ** The BST order property is kept by insertion *)

Lemma Forall_preorder_insert (P : Property -> Prop) t p :
  Forall P (preorder t) -> P p -> Forall P (preorder (insert_bst t p)).
Proof.
  intros Ht Hp. eapply Permutation_Forall.
  - symmetry. apply preorder_insert.
  - now constructor.
Qed.

Lemma insert_bst_bst (t : BSTNode) (p : Property) :
  bst t -> bst (insert_bst t p).
Proof.
  induction t as [|q l IHl r IHr]; simpl.
  - intros _. repeat split; constructor.
  - intros (Hl & Hr & Bl & Br).
    destruct (Qltb (latestPrice p) (latestPrice q)) eqn:E; simpl.
    + apply Qltb_true in E.
      repeat split; auto. now apply Forall_preorder_insert.
    + apply Qltb_false in E.
      repeat split; auto. now apply Forall_preorder_insert.
Qed.

Lemma insert_all_bst (t : BSTNode) (ps : list Property) :
  bst t -> bst (insert_all t ps).
Proof.
  unfold insert_all. revert t.
  induction ps as [|p ps IH]; intros t Ht; simpl; auto.
  apply IH, insert_bst_bst, Ht.
Qed.

(** ** What the search returns *)

Lemma filter_all_false {A} (f : A -> bool) (l : list A) :
  Forall (fun x => f x = false) l -> filter f l = [].
Proof.
  induction 1; simpl; auto. now rewrite H.
Qed.

Lemma subseq_nil_l {A} (l : list A) : subseq [] l.
Proof. induction l; constructor; auto. Qed.

Lemma subseq_app {A} (l1 l1' l2 l2' : list A) :
  subseq l1 l1' -> subseq l2 l2' -> subseq (l1 ++ l2) (l1' ++ l2').
Proof.
  induction 1; intros H2; simpl.
  - exact H2.
  - apply subseq_skip. auto.
  - apply subseq_take. auto.
Qed.

Lemma range_list_subseq (t : BSTNode) (a b : Q) :
  subseq (range_list t a b) (filter (in_range a b) (preorder t)).
Proof.
  induction t as [|p l IHl r IHr]; cbn -[in_range Qltb]; [constructor|].
  rewrite filter_app.
  assert (Hl : subseq (if Qltb a (latestPrice p) then range_list l a b else [])
                      (filter (in_range a b) (preorder l)))
    by (destruct (Qltb a (latestPrice p)); auto using subseq_nil_l).
  assert (Hr : subseq (if Qltb (latestPrice p) b then range_list r a b else [])
                      (filter (in_range a b) (preorder r)))
    by (destruct (Qltb (latestPrice p) b); auto using subseq_nil_l).
  destruct (in_range a b p); simpl.
  - apply subseq_take. now apply subseq_app.
  - now apply subseq_app.
Qed.

Lemma ForallOrdPairs_app_inv {A} (R : A -> A -> Prop) (l1 l2 : list A) :
  ForallOrdPairs R (l1 ++ l2) -> ForallOrdPairs R l1 /\ ForallOrdPairs R l2.
Proof.
  induction l1 as [|x l1 IH]; simpl; intro H; [split; [constructor|exact H]|].
  inversion H as [|? ? Hx Hrest]; subst.
  destruct (IH Hrest) as [H1 H2]. split; auto.
  constructor; auto. apply Forall_forall. intros y Hy.
  rewrite Forall_forall in Hx. apply Hx, in_or_app. now left.
Qed.

Lemma ForallOrdPairs_perm {A} (R : A -> A -> Prop)
  (Rsym : forall x y, R x y -> R y x) (l l' : list A) :
  Permutation l l' -> ForallOrdPairs R l -> ForallOrdPairs R l'.
Proof.
  induction 1 as [|x l l' P IH|x y l|l l' l'' P1 IH1 P2 IH2]; intro H; auto.
  - inversion H as [|? ? Hx Hl]; subst. constructor; auto.
    eapply Permutation_Forall; eauto.
  - inversion H as [|? ? Hy H1]; subst.
    inversion H1 as [|? ? Hx Hl]; subst.
    inversion Hy as [|? ? Hyx Hyl]; subst.
    constructor; [constructor; auto|constructor; auto].
Qed.

Lemma distinct_prices_sym :
  forall x y : Property,
    ~ latestPrice x == latestPrice y -> ~ latestPrice y == latestPrice x.
Proof. intros x y H E. apply H. now symmetry. Qed.

(** With pairwise distinct prices the pruning of the search never skips an
    in-range listing of a BST. *)
Lemma range_list_distinct (t : BSTNode) (a b : Q) :
  bst t -> distinct_prices (preorder t) ->
  range_list t a b = filter (in_range a b) (preorder t).
Proof.
  induction t as [|p l IHl r IHr]; cbn -[in_range Qltb]; auto.
  intros (Hl & Hr & Bl & Br) D.
  inversion D as [|? ? Dp Dlr]; subst.
  apply ForallOrdPairs_app_inv in Dlr. destruct Dlr as [Dl Dr].
  rewrite filter_app.
  assert (EL : (if Qltb a (latestPrice p) then range_list l a b else []) =
               filter (in_range a b) (preorder l)).
  { destruct (Qltb a (latestPrice p)) eqn:E; auto.
    apply Qltb_false in E. symmetry. apply filter_all_false.
    eapply Forall_impl; [|exact Hl]. intros q Hq. simpl in Hq.
    apply in_range_false. left. lra. }
  assert (ER : (if Qltb (latestPrice p) b then range_list r a b else []) =
               filter (in_range a b) (preorder r)).
  { destruct (Qltb (latestPrice p) b) eqn:E; auto.
    apply Qltb_false in E. symmetry. apply filter_all_false.
    rewrite Forall_forall in Hr, Dp |- *. intros q Hq.
    specialize (Hr q Hq). specialize (Dp q (in_or_app _ _ _ (or_intror Hq))).
    simpl in Hr, Dp. apply in_range_false. right.
    destruct (Qlt_le_dec (latestPrice p) (latestPrice q)) as [Lt|Le].
    - lra.
    - exfalso. apply Dp. apply Qle_antisym; auto. }
  rewrite EL, ER. now destruct (in_range a b p).
Qed.

(** The range is empty when the bounds are inverted. *)
Lemma range_list_inverted (t : BSTNode) (a b : Q) :
  b < a -> range_list t a b = [].
Proof.
  intro H. induction t as [|p l IHl r IHr]; cbn -[in_range Qltb]; auto.
  rewrite IHl, IHr.
  destruct (in_range a b p) eqn:E.
  - apply in_range_true in E. lra.
  - now destruct (Qltb a (latestPrice p)), (Qltb (latestPrice p) b).
Qed.

(** ** Grouping *)

(** Dictionary lookup [d[k]] / [d.get(k)] on an association list. *)
Fixpoint assoc {V} (k : string) (d : list (string * V)) : option V :=
  match d with
  | [] => None
  | (k', v) :: d' => if String.eqb k k' then Some v else assoc k d'
  end.

(** The listings of a given city, in collection order. *)
Definition of_city (c : string) (ps : list Property) : list Property :=
  filter (fun p => String.eqb (city p) c) ps.

(** The group a city should have: its listings' prices, absent if none. *)
Definition city_group (c : string) (ps : list Property) : option (list Q) :=
  match of_city c ps with
  | [] => None
  | fs => Some (map latestPrice fs)
  end.

Definition sum_Q (xs : list Q) : Q := fold_right Qplus 0 xs.

(** Arithmetic mean of a non-empty list of numbers. *)
Definition arith_mean (xs : list Q) : Q :=
  sum_Q xs / inject_Z (Z.of_nat (List.length xs)).

Definition count_city (c : string) (ps : list Property) : nat :=
  List.length (of_city c ps).

Lemma assoc_group_append {V} (k c : string) (v : V) (d : list (string * list V)) :
  assoc k (group_append String.eqb c v d) =
  if String.eqb k c
  then Some (match assoc k d with Some vs => vs ++ [v] | None => [v] end)
  else assoc k d.
Proof.
  induction d as [|[k' vs] d IH]; simpl.
  - reflexivity.
  - destruct (String.eqb c k') eqn:E1; simpl.
    + apply String.eqb_eq in E1. subst k'.
      destruct (String.eqb k c); reflexivity.
    + rewrite IH. destruct (String.eqb k k') eqn:E2; auto.
      apply String.eqb_eq in E2. subst k'.
      destruct (String.eqb k c) eqn:E3; auto.
      apply String.eqb_eq in E3. subst. now rewrite String.eqb_refl in E1.
Qed.

Lemma In_keys_group_append {V} (k c : string) (v : V) (d : list (string * list V)) :
  In k (map fst (group_append String.eqb c v d)) <-> k = c \/ In k (map fst d).
Proof.
  induction d as [|[k' vs] d IH]; simpl.
  - intuition congruence.
  - destruct (String.eqb c k') eqn:E; simpl.
    + apply String.eqb_eq in E. subst. intuition congruence.
    + rewrite IH. intuition congruence.
Qed.

Lemma NoDup_keys_group_append {V} (c : string) (v : V) (d : list (string * list V)) :
  NoDup (map fst d) -> NoDup (map fst (group_append String.eqb c v d)).
Proof.
  induction d as [|[k' vs] d IH]; simpl; intro H.
  - repeat constructor. simpl. tauto.
  - inversion H as [|? ? Hn Hd]; subst.
    destruct (String.eqb c k') eqn:E; simpl; constructor; auto.
    rewrite In_keys_group_append. intros [Eq|Hin]; [|contradiction].
    subst. now rewrite String.eqb_refl in E.
Qed.

Lemma city_group_snoc (k : string) (ps : list Property) (p : Property) :
  city_group k (ps ++ [p]) =
  if String.eqb k (city p)
  then Some (match city_group k ps with
             | Some vs => vs ++ [latestPrice p]
             | None => [latestPrice p] end)
  else city_group k ps.
Proof.
  unfold city_group, of_city. rewrite filter_app. simpl.
  rewrite (String.eqb_sym (city p) k).
  destruct (String.eqb k (city p)).
  - destruct (filter _ ps); simpl; auto. now rewrite map_app.
  - now rewrite app_nil_r.
Qed.

Lemma location_prices_fold (ps qs : list Property) (d : list (string * list Q)) :
  (forall k, assoc k d = city_group k ps) -> NoDup (map fst d) ->
  let d' := fold_left (fun d p => group_append String.eqb (city p)
                                    (latestPrice p) d) qs d in
  (forall k, assoc k d' = city_group k (ps ++ qs)) /\ NoDup (map fst d').
Proof.
  revert ps d. induction qs as [|q qs IH]; intros ps d Hd Hn; simpl.
  - rewrite app_nil_r. auto.
  - replace (ps ++ q :: qs) with ((ps ++ [q]) ++ qs)
      by now rewrite <- app_assoc.
    apply IH.
    + intro k. rewrite assoc_group_append, city_group_snoc, Hd. reflexivity.
    + now apply NoDup_keys_group_append.
Qed.

Lemma location_prices_spec (ps : list Property) :
  (forall k, assoc k (location_prices ps) = city_group k ps) /\
  NoDup (map fst (location_prices ps)).
Proof.
  apply (location_prices_fold [] ps []); [reflexivity|constructor].
Qed.


Lemma assoc_In {V} (k : string) (v : V) (d : list (string * V)) :
  NoDup (map fst d) -> In (k, v) d -> assoc k d = Some v.
Proof.
  induction d as [|[k' v'] d IH]; simpl; [contradiction|].
  intros Hn [E|Hin]; inversion Hn as [|? ? Hk Hd]; subst.
  - inversion E; subst. now rewrite String.eqb_refl.
  - destruct (String.eqb k k') eqn:E; auto.
    apply String.eqb_eq in E. subst. exfalso. apply Hk.
    apply (in_map fst _ _ Hin).
Qed.

Lemma assoc_Some_In {V} (k : string) (v : V) (d : list (string * V)) :
  assoc k d = Some v -> In k (map fst d).
Proof.
  induction d as [|[k' v'] d IH]; simpl; [discriminate|].
  destruct (String.eqb k k') eqn:E; intro H.
  - left. symmetry. now apply String.eqb_eq.
  - right. auto.
Qed.

Lemma assoc_map_mean (k : string) (d : list (string * list Q)) :
  assoc k (map (fun '(loc, prices) => (loc, mean prices)) d) =
  option_map mean (assoc k d).
Proof.
  induction d as [|[k' vs] d IH]; simpl; auto.
  destruct (String.eqb k k'); auto.
Qed.


Lemma Permutation_filter_compat {A} (f : A -> bool) (l l' : list A) :
  Permutation l l' -> Permutation (filter f l) (filter f l').
Proof.
  induction 1; simpl.
  - constructor.
  - destruct (f x); auto.
  - destruct (f x), (f y); auto using perm_swap.
  - eauto using Permutation_trans.
Qed.

Lemma calculate_average_price_by_location_eq (s : RealEstateAnalyzer) :
  calculate_average_price_by_location s =
  map (fun '(loc, prices) => (loc, mean prices)) (location_prices (properties s)).
Proof. reflexivity. Qed.


Lemma assoc_map_snd {A B} (f : A -> B) (k : string) (d : list (string * A)) :
  assoc k (map (fun '(loc, prices) => (loc, f prices)) d) =
  option_map f (assoc k d).
Proof.
  induction d as [|[k' vs] d IH]; simpl; auto.
  destruct (String.eqb k k'); auto.
Qed.

Lemma of_city_nil_iff (c : string) (ps : list Property) :
  of_city c ps = [] <-> ~ In c (map city ps).
Proof.
  unfold of_city. split.
  - intros H Hin. apply in_map_iff in Hin as [p [Hpc Hp]].
    assert (Hq : In p (filter (fun p => String.eqb (city p) c) ps)).
    { apply filter_In. split; auto. now apply String.eqb_eq. }
    rewrite H in Hq. contradiction.
  - intro H. apply filter_all_false, Forall_forall. intros p Hp.
    destruct (String.eqb (city p) c) eqn:E; auto.
    apply String.eqb_eq in E. subst. exfalso. apply H, in_map, Hp.
Qed.

(** ** Further concrete inputs *)

(** Two listings with the same price. *)
Definition tie1 : Property := mkProperty "1" 100 3 "A" 2020.
Definition tie2 : Property := mkProperty "2" 100 3 "B" 2020.

(** Seven listings of one city, priced 5, 4, 4, 4, 4, 4, 4 (total 29). *)
Definition sevenA : list Property :=
  [mkProperty "1" 5 2 "A" 2020; mkProperty "2" 4 2 "A" 2020;
   mkProperty "3" 4 2 "A" 2020; mkProperty "4" 4 2 "A" 2020;
   mkProperty "5" 4 2 "A" 2020; mkProperty "6" 4 2 "A" 2020;
   mkProperty "7" 4 2 "A" 2020].

(** ** Claims *)

(** C1 (range-query correctness, any insertion order). The code omits
    listings: with two listings of equal price [100] the second is inserted
    into the right subtree of the first, and the query [[100, 100]] does not
    descend right since [max_price > node.price] fails at equality. *)
Theorem range_query_ties_omitted :
  let s := build_price_bst (load_data init [tie1; tie2]) in
  find_properties_in_price_range s 100 100 = [tie1] /\
  filter (in_range 100 100) (properties s) = [tie1; tie2].
Proof. split; reflexivity. Qed.

(** C2 (amended): the range query returns the in-range listings as an
    order-preserving subsequence of the tree's pre-order traversal (node,
    left subtree, right subtree), not in ascending price order. *)
Theorem range_query_preorder_subseq (s : RealEstateAnalyzer) (a b : Q) :
  subseq (find_properties_in_price_range s a b)
         (filter (in_range a b) (preorder (price_bst_root s))).
Proof.
  rewrite find_properties_range_list. apply range_list_subseq.
Qed.

(** C2 counterexample: listings of prices 200 then 100, query [[0, 300]]:
    the result is not sorted by price. *)
Lemma range_query_not_ascending :
  ~ Sorted (fun x y => latestPrice x <= latestPrice y)
      (find_properties_in_price_range
         (build_price_bst (load_data init [prop3; prop1])) 0 300).
Proof.
  replace (find_properties_in_price_range
             (build_price_bst (load_data init [prop3; prop1])) 0 300)
    with [prop3; prop1] by reflexivity.
  intro H. inversion H as [|? ? _ Hd]; subst.
  inversion Hd as [|? ? Hle]; subst.
  unfold Qle in Hle. simpl in Hle. lia.
Qed.

(** C3 (amended): a range query issued before [build_price_bst] runs on the
    empty root of [__init__] and returns an empty list; there is no
    NotIndexed outcome. *)
Theorem range_query_before_build_empty (rows : list Property) (a b : Q) :
  find_properties_in_price_range (load_data init rows) a b = [].
Proof. reflexivity. Qed.

(** C3 counterexample: one listing of price 100 loaded, index not built:
    the query [[0, 200]] silently returns the empty list. *)
Lemma query_before_build_silent :
  let s := load_data init [prop1] in
  In prop1 (properties s) /\ in_range 0 200 prop1 = true /\
  find_properties_in_price_range s 0 200 = [].
Proof. repeat split; simpl; auto. Qed.

(** C4: every tree built by [build_price_bst] satisfies the BST order
    property (left prices strictly smaller, right prices greater or equal),
    and [insert_bst] preserves it. *)
Theorem build_price_bst_order :
  (forall s, bst (price_bst_root (build_price_bst s))) /\
  (forall t p, bst t -> bst (insert_bst t p)).
Proof.
  split.
  - intro s. simpl. apply insert_all_bst. exact I.
  - apply insert_bst_bst.
Qed.

Lemma build_price_bst_order_witness :
  bst (price_bst_root scenario) /\ bst (insert_bst Leaf prop1).
Proof.
  split.
  - apply (proj1 build_price_bst_order).
  - apply (proj2 build_price_bst_order). exact I.
Defined.

(** C5 (amended): on the three-listing scenario the range query [[150, 300]]
    returns listing 2 then listing 3 (pre-order); the averages by location
    are [{A: 150, B: 300}] and the trends are
    [{2020: {A: 100, B: 300}, 2021: {A: 200}}], with no B under 2021. *)
Theorem scenario_results :
  find_properties_in_price_range scenario 150 300 = [prop2; prop3] /\
  normalize_avg (calculate_average_price_by_location scenario) =
    [("A"%string, 150); ("B"%string, 300)] /\
  normalize_trends (find_trends scenario) =
    [(2020%Z, [("A"%string, 100); ("B"%string, 300)]);
     (2021%Z, [("A"%string, 200)])].
Proof. repeat split; vm_compute; reflexivity. Qed.

(** C5 counterexample: the query does not return listing 3 before
    listing 2. *)
Lemma scenario_range_order_differs :
  find_properties_in_price_range scenario 150 300 <> [prop3; prop2].
Proof. vm_compute. discriminate. Qed.


(** C6 counterexample: seven listings of city A priced 5, 4, 4, 4, 4, 4, 4.
    The float average is 4.142857142857143, not 29/7, and 7 times it is not
    29, neither exactly nor in float arithmetic (29.000000000000004). *)
Lemma average_float_not_exact :
  let s := load_data init sevenA in
  match assoc "A" (calculate_average_price_by_location_f s) with
  | Some m =>
      match float_value m with
      | Some v =>
          ~ v == arith_mean (map latestPrice (of_city "A" (properties s))) /\
          ~ inject_Z (Z.of_nat (count_city "A" (properties s))) * v ==
            sum_Q (map latestPrice (properties s)) /\
          PrimFloat.eqb
            (PrimFloat.mul (float_of_Z (Z.of_nat (count_city "A" (properties s)))) m)
            (py_sum_f (map price_float (map latestPrice (properties s)))) = false
      | None => False
      end
  | None => False
  end.
Proof.
  vm_compute. split; [|split; [|reflexivity]]; intro H; discriminate H.
Qed.

(** C6 (amended): for every city of the collection, the group is non-empty
    and [calculate_average_price_by_location] maps the city to
    [sum(prices) / len(prices)] computed in floats over the prices of exactly
    that city's listings, in collection order. *)
Theorem average_by_location_float_groups (s : RealEstateAnalyzer) (c : string)
  (H : In c (map city (properties s))) :
  (0 < count_city c (properties s))%nat /\
  assoc c (calculate_average_price_by_location_f s) =
    Some (mean_f (map price_float (map latestPrice (of_city c (properties s))))).
Proof.
  destruct (location_prices_spec (properties s)) as [Ha _].
  assert (Hne : of_city c (properties s) <> []).
  { intro E. apply of_city_nil_iff in E. contradiction. }
  unfold calculate_average_price_by_location_f, count_city.
  rewrite assoc_map_snd, Ha. unfold city_group.
  destruct (of_city c (properties s)); [contradiction|].
  split; [simpl; lia|reflexivity].
Qed.

Lemma average_by_location_float_groups_witness :
  In "A"%string (map city (properties scenario)) /\
  (0 < count_city "A" (properties scenario))%nat /\
  assoc "A" (calculate_average_price_by_location_f scenario) =
    Some (mean_f (map price_float (map latestPrice
                    (of_city "A" (properties scenario))))).
Proof.
  assert (H : In "A"%string (map city (properties scenario))) by (simpl; auto).
  split; [exact H|]. exact (average_by_location_float_groups scenario "A" H).
Defined.

(** C7: building twice gives the same analyzer as building once (the root is
    reset before the insertions), hence the same range-query results. *)
Theorem build_price_bst_idempotent (s : RealEstateAnalyzer) :
  build_price_bst (build_price_bst s) = build_price_bst s /\
  forall a b,
    find_properties_in_price_range (build_price_bst (build_price_bst s)) a b =
    find_properties_in_price_range (build_price_bst s) a b.
Proof. split; reflexivity. Qed.

(** C8: with inverted bounds the range query returns the empty list, and a
    query on an empty tree returns the empty list. *)
Theorem range_query_inverted_or_empty :
  (forall s a b, b < a -> find_properties_in_price_range s a b = []) /\
  (forall s a b, price_bst_root s = Leaf ->
                 find_properties_in_price_range s a b = []).
Proof.
  split.
  - intros s a b H. rewrite find_properties_range_list.
    now apply range_list_inverted.
  - intros s a b H. rewrite find_properties_range_list, H. reflexivity.
Qed.

Lemma range_query_inverted_or_empty_witness :
  find_properties_in_price_range scenario 300 100 = [] /\
  find_properties_in_price_range init 0 100 = [].
Proof.
  split.
  - apply (proj1 range_query_inverted_or_empty). reflexivity.
  - apply (proj2 range_query_inverted_or_empty). reflexivity.
Defined.

(** C9: the range query, [calculate_average_price_by_location] and
    [find_trends] leave the analyzer (its properties and its whole tree)
    unchanged. *)
Theorem read_operations_frame (s : RealEstateAnalyzer) (a b : Q) :
  snd (find_properties_in_price_range_st a b s) = s /\
  snd (calculate_average_price_by_location_st s) = s /\
  snd (find_trends_st s) = s.
Proof.
  split; [apply find_properties_state|]. split; reflexivity.
Qed.

(** C10: when all prices are pairwise distinct, the range query on the
    built tree returns exactly the in-range listings, each once. *)
Theorem range_query_distinct_prices (s : RealEstateAnalyzer) (a b : Q)
  (H : distinct_prices (properties s)) :
  Permutation (find_properties_in_price_range (build_price_bst s) a b)
              (filter (in_range a b) (properties s)).
Proof.
  rewrite find_properties_range_list, range_list_distinct.
  - apply Permutation_filter_compat, preorder_build.
  - simpl. apply insert_all_bst. exact I.
  - eapply ForallOrdPairs_perm; [apply distinct_prices_sym| |exact H].
    symmetry. apply preorder_build.
Qed.

Lemma range_query_distinct_prices_witness :
  distinct_prices (properties scenario) /\
  Permutation (find_properties_in_price_range (build_price_bst scenario) 150 300)
              (filter (in_range 150 300) (properties scenario)).
Proof.
  assert (D : distinct_prices (properties scenario)).
  { unfold distinct_prices. simpl.
    repeat constructor; unfold Qeq; simpl; discriminate. }
  split; [exact D|]. apply range_query_distinct_prices. exact D.
Defined.

(** ** Further coverage: the per-year trends, the location averages and the
    search *)

(** Dictionary lookup on the year-keyed dictionary of [find_trends]. *)
Fixpoint assocZ {V} (k : Z) (d : list (Z * V)) : option V :=
  match d with
  | [] => None
  | (k', v) :: d' => if Z.eqb k k' then Some v else assocZ k d'
  end.

(** The listings of a given sale year, in collection order. *)
Definition of_year (y : Z) (ps : list Property) : list Property :=
  filter (fun p => Z.eqb (latest_saleyear p) y) ps.

(** The inner dictionary year [y] should have: the location grouping of that
    year's listings, absent if there are none. *)
Definition year_group (y : Z) (ps : list Property)
  : option (list (string * list Q)) :=
  match of_year y ps with
  | [] => None
  | fs => Some (location_prices fs)
  end.

Lemma location_prices_snoc (ps : list Property) (p : Property) :
  location_prices (ps ++ [p]) =
  group_append String.eqb (city p) (latestPrice p) (location_prices ps).
Proof. unfold location_prices. now rewrite fold_left_app. Qed.

Lemma assocZ_group_append2 (y y0 : Z) (c : string) (v : Q)
  (d : list (Z * list (string * list Q))) :
  assocZ y (group_append2 y0 c v d) =
  if Z.eqb y y0
  then Some (group_append String.eqb c v
               (match assocZ y d with Some l => l | None => [] end))
  else assocZ y d.
Proof.
  induction d as [|[y' locs] d IH]; simpl; [reflexivity|].
  destruct (Z.eqb y0 y') eqn:E1; simpl.
  - apply Z.eqb_eq in E1. subst y'. now destruct (Z.eqb y y0).
  - rewrite IH. destruct (Z.eqb y y') eqn:E2; auto.
    apply Z.eqb_eq in E2. subst y'.
    destruct (Z.eqb y y0) eqn:E3; auto.
    apply Z.eqb_eq in E3. subst. now rewrite Z.eqb_refl in E1.
Qed.

Lemma In_keys_group_append2 (k y : Z) (c : string) (v : Q)
  (d : list (Z * list (string * list Q))) :
  In k (map fst (group_append2 y c v d)) <-> k = y \/ In k (map fst d).
Proof.
  induction d as [|[y' locs] d IH]; simpl.
  - intuition congruence.
  - destruct (Z.eqb y y') eqn:E; simpl.
    + apply Z.eqb_eq in E. subst. intuition congruence.
    + rewrite IH. intuition congruence.
Qed.

Lemma NoDup_keys_group_append2 (y : Z) (c : string) (v : Q)
  (d : list (Z * list (string * list Q))) :
  NoDup (map fst d) -> NoDup (map fst (group_append2 y c v d)).
Proof.
  induction d as [|[y' locs] d IH]; simpl; intro H.
  - repeat constructor. simpl. tauto.
  - inversion H as [|? ? Hn Hd]; subst.
    destruct (Z.eqb y y') eqn:E; simpl; constructor; auto.
    rewrite In_keys_group_append2. intros [Eq|Hin]; [|contradiction].
    subst. now rewrite Z.eqb_refl in E.
Qed.

Lemma year_group_snoc (y : Z) (ps : list Property) (p : Property) :
  year_group y (ps ++ [p]) =
  if Z.eqb y (latest_saleyear p)
  then Some (group_append String.eqb (city p) (latestPrice p)
               (match year_group y ps with Some l => l | None => [] end))
  else year_group y ps.
Proof.
  unfold year_group, of_year. rewrite filter_app. cbn -[location_prices].
  rewrite (Z.eqb_sym (latest_saleyear p) y).
  destruct (Z.eqb y (latest_saleyear p)).
  - destruct (filter _ ps) as [|q qs]; cbn -[location_prices]; [reflexivity|].
    now rewrite app_comm_cons, location_prices_snoc.
  - now rewrite app_nil_r.
Qed.

Lemma yearly_location_prices_fold (ps qs : list Property)
  (d : list (Z * list (string * list Q))) :
  (forall y, assocZ y d = year_group y ps) -> NoDup (map fst d) ->
  let d' := fold_left (fun d p => group_append2 (latest_saleyear p) (city p)
                                    (latestPrice p) d) qs d in
  (forall y, assocZ y d' = year_group y (ps ++ qs)) /\ NoDup (map fst d').
Proof.
  revert ps d. induction qs as [|q qs IH]; intros ps d Hd Hn; simpl.
  - rewrite app_nil_r. auto.
  - replace (ps ++ q :: qs) with ((ps ++ [q]) ++ qs)
      by now rewrite <- app_assoc.
    apply IH.
    + intro y. rewrite assocZ_group_append2, year_group_snoc, Hd. reflexivity.
    + now apply NoDup_keys_group_append2.
Qed.

Lemma yearly_location_prices_spec (ps : list Property) :
  (forall y, assocZ y (yearly_location_prices ps) = year_group y ps) /\
  NoDup (map fst (yearly_location_prices ps)).
Proof.
  apply (yearly_location_prices_fold [] ps []); [reflexivity|constructor].
Qed.

Lemma find_trends_eq (s : RealEstateAnalyzer) :
  find_trends s =
  map (fun '(year, locations) =>
         (year, map (fun '(loc, prices) => (loc, mean prices)) locations))
      (yearly_location_prices (properties s)).
Proof. reflexivity. Qed.

Lemma assocZ_map_row (y : Z) (d : list (Z * list (string * list Q))) :
  assocZ y (map (fun '(year, locations) =>
                   (year, map (fun '(loc, prices) => (loc, mean prices)) locations)) d) =
  option_map (fun locations =>
                map (fun '(loc, prices) => (loc, mean prices)) locations)
             (assocZ y d).
Proof.
  induction d as [|[y' locs] d IH]; simpl; auto.
  destruct (Z.eqb y y'); auto.
Qed.

Lemma assocZ_In {V} (k : Z) (v : V) (d : list (Z * V)) :
  NoDup (map fst d) -> In (k, v) d -> assocZ k d = Some v.
Proof.
  induction d as [|[k' v'] d IH]; simpl; [contradiction|].
  intros Hn [E|Hin]; inversion Hn as [|? ? Hk Hd]; subst.
  - inversion E; subst. now rewrite Z.eqb_refl.
  - destruct (Z.eqb k k') eqn:E; auto.
    apply Z.eqb_eq in E. subst. exfalso. apply Hk.
    apply (in_map fst _ _ Hin).
Qed.

Lemma assocZ_Some_In {V} (k : Z) (v : V) (d : list (Z * V)) :
  assocZ k d = Some v -> In k (map fst d).
Proof.
  induction d as [|[k' v'] d IH]; simpl; [discriminate|].
  destruct (Z.eqb k k') eqn:E; intro H.
  - left. symmetry. now apply Z.eqb_eq.
  - right. auto.
Qed.

(** Splitting a count by a key. *)
Section PartitionCount.
Variable K : Type.
Variable keqb : K -> K -> bool.
Hypothesis keqb_eq : forall x y, keqb x y = true <-> x = y.
Variable key : Property -> K.
Local Open Scope nat_scope.

Definition of_key (k : K) (ps : list Property) : list Property :=
  filter (fun p => keqb (key p) k) ps.

Lemma list_sum_map_plus {A} (f g : A -> nat) (l : list A) :
  list_sum (map (fun x => f x + g x) l) = list_sum (map f l) + list_sum (map g l).
Proof. induction l as [|x l IH]; simpl; lia. Qed.

Lemma count_key_absent (c : K) (Ks : list K) :
  ~ In c Ks -> list_sum (map (fun k => if keqb c k then 1 else 0) Ks) = 0.
Proof.
  induction Ks as [|k Ks IH]; simpl; intro H; [reflexivity|].
  destruct (keqb c k) eqn:E.
  - apply keqb_eq in E. subst. tauto.
  - rewrite IH; [reflexivity|tauto].
Qed.

Lemma count_key_indicator (c : K) (Ks : list K) :
  NoDup Ks -> In c Ks ->
  list_sum (map (fun k => if keqb c k then 1 else 0) Ks) = 1.
Proof.
  induction Ks as [|k Ks IH]; simpl; intros Hn Hin; [contradiction|].
  inversion Hn as [|? ? Hk HK]; subst.
  destruct (keqb c k) eqn:E.
  - apply keqb_eq in E. subst. rewrite count_key_absent; auto.
  - destruct Hin as [Eq|Hin].
    + subst. assert (keqb c c = true) by now apply keqb_eq. congruence.
    + rewrite IH; auto.
Qed.

(** Over a duplicate-free list of keys covering every listing, the numbers
    of listings per key add up to the number of listings. *)
Lemma count_key_partition (Ks : list K) (ps : list Property) :
  NoDup Ks -> (forall p, In p ps -> In (key p) Ks) ->
  list_sum (map (fun k => List.length (of_key k ps)) Ks) = List.length ps.
Proof.
  intros HK. induction ps as [|p ps IH]; simpl; intro Hc.
  - clear. induction Ks as [|k Ks IHK]; simpl; auto.
  - transitivity (list_sum (map (fun k => (if keqb (key p) k then 1 else 0) +
                                   List.length (of_key k ps)) Ks)).
    + f_equal. apply map_ext. intro k. unfold of_key. simpl.
      destruct (keqb (key p) k); reflexivity.
    + rewrite list_sum_map_plus, count_key_indicator, IH; auto.
Qed.
End PartitionCount.

Lemma location_prices_count (ps : list Property) :
  list_sum (map (fun '(c, _) => count_city c ps)
                (map (fun '(loc, prices) => (loc, mean prices))
                     (location_prices ps))) = List.length ps.
Proof.
  destruct (location_prices_spec ps) as [Ha Hn].
  rewrite map_map.
  transitivity (list_sum (map (fun c => List.length (of_city c ps))
                              (map fst (location_prices ps)))).
  { rewrite map_map. f_equal. apply map_ext. now intros []. }
  apply (count_key_partition string String.eqb String.eqb_eq city); auto.
  intros p Hp.
  apply (assoc_Some_In _ (map latestPrice (of_city (city p) ps))).
  rewrite Ha. unfold city_group.
  destruct (of_city (city p) ps) eqn:E; [|reflexivity].
  exfalso. apply of_city_nil_iff in E. apply E, in_map, Hp.
Qed.

(** [find_trends] drops and double-counts no listing: over its (year, city)
    entries, the numbers of listings of that year and city add up to the
    number of listings. *)
Theorem find_trends_counts (s : RealEstateAnalyzer) :
  list_sum (map (fun '(y, row) =>
                   list_sum (map (fun '(c, _) =>
                                    count_city c (of_year y (properties s))) row))
                (find_trends s)) =
  List.length (properties s).
Proof.
  destruct (yearly_location_prices_spec (properties s)) as [Hy Hn].
  rewrite find_trends_eq, map_map.
  transitivity (list_sum (map (fun y => List.length (of_year y (properties s)))
                  (map fst (yearly_location_prices (properties s))))).
  - rewrite map_map. f_equal. apply map_ext_in. intros [y locs] Hin.
    pose proof (assocZ_In _ _ _ Hn Hin) as Hl. rewrite Hy in Hl.
    unfold year_group in Hl. simpl.
    destruct (of_year y (properties s)) as [|q qs] eqn:E; [discriminate|].
    injection Hl as <-. apply location_prices_count.
  - apply (count_key_partition Z Z.eqb Z.eqb_eq latest_saleyear); auto.
    intros p Hp.
    apply (assocZ_Some_In _ (location_prices (of_year (latest_saleyear p)
                                                (properties s)))).
    rewrite Hy. unfold year_group.
    destruct (of_year (latest_saleyear p) (properties s)) eqn:E; [|reflexivity].
    exfalso. assert (Hq : In p (of_year (latest_saleyear p) (properties s))).
    { unfold of_year. apply filter_In. split; auto. apply Z.eqb_refl. }
    rewrite E in Hq. contradiction.
Qed.


(** [find_trends], year [y], city [c]: present exactly when some listing has
    that sale year and city, and then [sum(prices) / len(prices)] over
    exactly those listings. *)
Theorem find_trends_lookup (s : RealEstateAnalyzer) (y : Z) (c : string) :
  match assocZ y (find_trends s) with
  | Some row => assoc c row
  | None => None
  end =
  match of_city c (of_year y (properties s)) with
  | [] => None
  | fs => Some (mean (map latestPrice fs))
  end.
Proof.
  rewrite find_trends_eq, assocZ_map_row,
    (proj1 (yearly_location_prices_spec _)).
  unfold year_group.
  destruct (of_year y (properties s)) as [|q qs] eqn:E; [reflexivity|].
  simpl option_map. cbv iota.
  rewrite assoc_map_mean, (proj1 (location_prices_spec _)).
  unfold city_group. destruct (of_city c (q :: qs)); reflexivity.
Qed.

(** [find_trends], one year: the row of year [y] is present exactly when
    some listing has that sale year, and is then what
    [calculate_average_price_by_location] computes on that year's listings. *)
Theorem find_trends_row (s : RealEstateAnalyzer) (y : Z) :
  assocZ y (find_trends s) =
  match of_year y (properties s) with
  | [] => None
  | ys => Some (calculate_average_price_by_location (load_data init ys))
  end.
Proof.
  rewrite find_trends_eq, assocZ_map_row,
    (proj1 (yearly_location_prices_spec _)).
  unfold year_group. now destruct (of_year y (properties s)).
Qed.


Lemma keys_group_append {V} (c : string) (v : V) (d : list (string * list V)) :
  map fst (group_append String.eqb c v d) =
  if in_dec string_dec c (map fst d) then map fst d else map fst d ++ [c].
Proof.
  induction d as [|[k vs] d IH]; simpl; [reflexivity|].
  destruct (String.eqb c k) eqn:E; simpl.
  - apply String.eqb_eq in E. subst.
    destruct (string_dec k k); [reflexivity|congruence].
  - rewrite IH. destruct (string_dec k c) as [Eq|Ne].
    + subst. now rewrite String.eqb_refl in E.
    + destruct (in_dec string_dec c (map fst d)); reflexivity.
Qed.

(** [calculate_average_price_by_location] has no key for a city without
    listings (a lookup finds nothing, never a zero), and no key twice. *)
Theorem average_by_location_keys (s : RealEstateAnalyzer) (c : string) :
  (assoc c (calculate_average_price_by_location s) = None <->
   ~ In c (map city (properties s))) /\
  NoDup (map fst (calculate_average_price_by_location s)).
Proof.
  destruct (location_prices_spec (properties s)) as [Ha Hn].
  rewrite calculate_average_price_by_location_eq. split.
  - rewrite assoc_map_mean, Ha, <- of_city_nil_iff. unfold city_group.
    destruct (of_city c (properties s)); simpl; split; congruence.
  - rewrite map_map.
    replace (map (fun x => fst (let '(loc, prices) := x in (loc, mean prices)))
               (location_prices (properties s)))
      with (map fst (location_prices (properties s))); auto.
    apply map_ext. now intros [].
Qed.

(** [calculate_average_price_by_location] lists the cities in the order of
    their first appearance in [self.properties] (the dict's insertion order,
    which is the order of the bars drawn by [visualize_data]). *)
Theorem average_by_location_order (s : RealEstateAnalyzer) :
  map fst (calculate_average_price_by_location s) =
  rev (nodup string_dec (rev (map city (properties s)))).
Proof.
  rewrite calculate_average_price_by_location_eq, map_map.
  transitivity (map fst (location_prices (properties s))).
  { apply map_ext. now intros []. }
  destruct s as [ps root]. simpl. clear root.
  induction ps as [|p ps IH] using rev_ind; [reflexivity|].
  rewrite location_prices_snoc, keys_group_append, map_app, rev_app_distr.
  simpl. rewrite IH.
  destruct (in_dec string_dec (city p) (rev (nodup string_dec (rev (map city ps)))))
    as [Hin|Hout];
  destruct (in_dec string_dec (city p) (rev (map city ps))) as [Hin'|Hout'];
  simpl; auto.
  - exfalso. apply Hout'. rewrite <- in_rev in Hin.
    now apply nodup_In in Hin.
  - exfalso. apply Hout. rewrite <- in_rev, nodup_In. exact Hin'.
Qed.

Lemma subseq_incl {A} (l l' : list A) : subseq l l' -> incl l l'.
Proof.
  induction 1 as [|y l l' H IH|y l l' H IH]; intros z Hz; simpl in *; auto.
  destruct Hz; auto.
Qed.

Lemma range_list_complete (t : BSTNode) (a b : Q) (q : Property) :
  bst t -> In q (preorder t) ->
  a <= latestPrice q -> latestPrice q < b -> In q (range_list t a b).
Proof.
  induction t as [|p l IHl r IHr]; cbn -[in_range Qltb]; [contradiction|].
  intros (Hl & Hr & Bl & Br) Hin Ha Hb. apply in_or_app.
  destruct Hin as [<-|Hin].
  - left. assert (E : in_range a b p = true) by (apply in_range_true; lra).
    rewrite E. now left.
  - right. apply in_or_app. apply in_app_or in Hin as [Hin|Hin].
    + left. rewrite Forall_forall in Hl. specialize (Hl q Hin). simpl in Hl.
      assert (E : Qltb a (latestPrice p) = true) by (apply Qltb_true; lra).
      rewrite E. auto.
    + right. rewrite Forall_forall in Hr. specialize (Hr q Hin). simpl in Hr.
      assert (E : Qltb (latestPrice p) b = true) by (apply Qltb_true; lra).
      rewrite E. auto.
Qed.

(** After [build_price_bst], every listing the range query returns is one of
    [self.properties] with [min_price <= price <= max_price]; and every
    listing with [min_price <= price < max_price] is returned (only listings
    priced exactly [max_price] can be missed, see the tie case). *)
Theorem range_query_sound_complete_below_max (s : RealEstateAnalyzer)
  (a b : Q) (q : Property) :
  (In q (find_properties_in_price_range (build_price_bst s) a b) ->
   In q (properties s) /\ a <= latestPrice q <= b) /\
  (In q (properties s) -> a <= latestPrice q -> latestPrice q < b ->
   In q (find_properties_in_price_range (build_price_bst s) a b)).
Proof.
  rewrite find_properties_range_list. split.
  - intro H. apply (subseq_incl _ _ (range_list_subseq _ a b)) in H.
    apply filter_In in H as [H1 H2]. apply in_range_true in H2.
    split; [|exact H2].
    eapply Permutation_in; [apply preorder_build|exact H1].
  - intros Hq Ha Hb. apply range_list_complete; auto.
    + simpl. apply insert_all_bst. exact I.
    + eapply Permutation_in; [symmetry; apply preorder_build|exact Hq].
Qed.

Lemma range_query_sound_complete_below_max_witness :
  In prop3 (properties scenario) /\ 150 <= latestPrice prop3 /\
  latestPrice prop3 < 300 /\
  In prop3 (find_properties_in_price_range (build_price_bst scenario) 150 300).
Proof.
  assert (Hin : In prop3 (properties scenario)) by (simpl; auto).
  assert (Ha : 150 <= latestPrice prop3) by (simpl; lra).
  assert (Hb : latestPrice prop3 < 300) by (simpl; lra).
  repeat split; auto.
  exact (proj2 (range_query_sound_complete_below_max scenario 150 300 prop3)
           Hin Ha Hb).
Defined.

(** [insert_bst] adds exactly the new listing to the tree, and the tree
    built by [build_price_bst] holds exactly [self.properties], each once. *)
Theorem price_bst_contents :
  (forall t p, Permutation (preorder (insert_bst t p)) (p :: preorder t)) /\
  (forall s, Permutation (preorder (price_bst_root (build_price_bst s)))
                         (properties s)).
Proof.
  split; [apply preorder_insert|apply preorder_build].
Qed.

(** ** The bounds prompt of [main] *)






